(** * cql3::query_options and the stream manager API

    A shallow embedding of [cql3/query_options.hh]: the data members of
    [query_options] and [specific_options], the batch constructor that the
    header defines inline, and the member functions the header declares.

    The header is the only place where [query_options] is defined in this
    tree.  The batch constructor and [make_batch_options] are translated
    from their bodies.  The other member functions are declared there and
    defined elsewhere; each of them is modelled from the specification and
    says so in its comment.

    [api/stream_manager.cc] comes first: the conversion of the streaming
    state into the JSON types of the REST API, function by function. *)

From Stdlib Require Import String Strings.Byte.
From Stdlib Require Import List ZArith Bool Arith Lia Permutation.
Import ListNotations.

Local Open Scope list_scope.
Local Set Warnings "-register-all".

(** ** Values and views *)

(** [sstring_view], the type of a bound-variable name. *)
Definition sstring_view := string.

(** [std::vector<int8_t>]: the element type of [_temporaries], and the
    storage of an owned buffer. *)
Definition bytes := list byte.

(** Modelled from the spec: [cql3::raw_value] comes from [cql3/values.hh],
    which the header includes; a value in its owned representation is "a byte
    buffer whose storage is held by this QueryOptions". *)
Definition raw_value := bytes.

(** Modelled from the spec: [cql3::raw_value_view] comes from
    [cql3/values.hh] as well.  A view is a reference to storage.  Storage
    that nobody writes to while the view is alive (an owned buffer of the
    instance, or the inbound request buffer that the caller keeps alive) is
    denoted by its content.  The temporaries table grows during the life of
    an instance, so a view into it is the index of the entry it refers to
    and is read through the table. *)
Inductive raw_value_view : Type :=
| view_of_bytes (b : bytes)
| view_of_temporary (k : nat).

(** Modelled from the spec: [column_specification] comes from
    [cql3/column_specification.hh]; "Column specification (name + declared
    type)".  The binder consults the name only. *)
Record column_specification : Type := mk_column_specification {
  name : sstring_view
}.

(** * api/stream_manager.cc *)

(** [json::json_list<T>]: the elements in the order they were pushed. *)
Module json.

Definition json_list (T : Type) : Type := list T.

Definition push {T : Type} (l : json_list T) (element : T) : json_list T :=
  l ++ [element].

End json.

(** The members of the [streaming] types that [api/stream_manager.cc]
    reads.  The types of identifiers, addresses and enumerations come from
    other headers and are parameters.  A [std::map] is the sequence of its
    entries in iteration order. *)
Module streaming.
Section Types.
Context {UUID inet_address direction stream_session_state : Type}.

Record stream_summary : Type := mk_stream_summary {
  cf_id : UUID;
  files : Z;
  total_size : Z
}.

Record progress_info : Type := mk_progress_info {
  peer : inet_address;
  session_index : Z;
  file_name : string;
  dir : direction;
  current_bytes : Z;
  total_bytes : Z
}.

(** [session_info], read through the loop variable [info] of [get_state]. *)
Record session_info : Type := mk_session_info {
  info_peer : inet_address;
  info_session_index : Z;
  info_connecting : inet_address;
  info_receiving_summaries : list stream_summary;
  info_sending_summaries : list stream_summary;
  info_state : stream_session_state;
  info_receiving_files : list (string * progress_info);
  info_sending_files : list (string * progress_info)
}.

(** [stream_result_future]; [get_all_session_info] stands for
    [get_coordinator().get()->get_all_session_info()]. *)
Record stream_result_future : Type := mk_stream_result_future {
  plan_id : UUID;
  description : string;
  get_all_session_info : list session_info
}.

(** [stream_manager]: the two maps from plan id to result future, each as
    the sequence its iteration visits. *)
Record stream_manager : Type := mk_stream_manager {
  get_initiated_streams : list (UUID * stream_result_future);
  get_receiving_streams : list (UUID * stream_result_future)
}.

End Types.

Arguments stream_summary : clear implicits.
Arguments progress_info : clear implicits.
Arguments session_info : clear implicits.
Arguments stream_result_future : clear implicits.
Arguments stream_manager : clear implicits.

End streaming.

(** [httpd::stream_manager_json], abbreviated [hs] in the source: the
    members of the JSON types that [api/stream_manager.cc] assigns. *)
Module hs.
Section Types.
Context {direction_wrapper state_wrapper : Type}.

Record stream_summary : Type := mk_stream_summary {
  cf_id : string;
  files : Z;
  total_size : Z
}.

Record progress_info : Type := mk_progress_info {
  current_bytes : Z;
  direction : direction_wrapper;
  file_name : string;
  peer : string;
  session_index : Z;
  total_bytes : Z
}.

Record progress_info_mapper : Type := mk_progress_info_mapper {
  key : string;
  value : progress_info
}.

(** [stream_info], written through the local [si] of [get_state]. *)
Record stream_info : Type := mk_stream_info {
  si_peer : string;
  si_session_index : Z;
  si_state : state_wrapper;
  si_connecting : string;
  si_receiving_summaries : json.json_list stream_summary;
  si_sending_summaries : json.json_list stream_summary;
  si_receiving_files : json.json_list progress_info_mapper;
  si_sending_files : json.json_list progress_info_mapper
}.

Record stream_state : Type := mk_stream_state {
  description : string;
  plan_id : string
}.

End Types.

Arguments progress_info : clear implicits.
Arguments progress_info_mapper : clear implicits.
Arguments stream_info : clear implicits.

End hs.

Module api.
Section StreamManager.
Context {UUID inet_address direction stream_session_state : Type}.
Context {direction_wrapper state_wrapper : Type}.

(** [boost::lexical_cast<std::string>] at the two types it is used at,
    [UUID::to_sstring], and the assignment of a streaming enumeration to its
    JSON wrapper. *)
Variable lexical_cast_UUID : UUID -> string.
Variable lexical_cast_inet_address : inet_address -> string.
Variable to_sstring : UUID -> string.
Variable direction_of : direction -> direction_wrapper.
Variable state_of : stream_session_state -> state_wrapper.

(** [set_summaries]: one [hs::stream_summary] pushed to [to] per element of
    [from]. *)
Definition set_summaries (from : list (streaming.stream_summary UUID))
    (to : json.json_list hs.stream_summary) : json.json_list hs.stream_summary :=
  fold_left
    (fun to sum =>
       let res :=
         hs.mk_stream_summary
           (lexical_cast_UUID (streaming.cf_id sum))
           (streaming.files sum)
           (streaming.total_size sum) in
       json.push to res)
    from to.

(** [get_progress_info]. *)
Definition get_progress_info
    (info : streaming.progress_info inet_address direction)
    : hs.progress_info direction_wrapper :=
  hs.mk_progress_info
    (streaming.current_bytes info)
    (direction_of (streaming.dir info))
    (streaming.file_name info)
    (lexical_cast_inet_address (streaming.peer info))
    (streaming.session_index info)
    (streaming.total_bytes info).

(** [set_files]: one [hs::progress_info_mapper] pushed to [to] per entry of
    the map [from]. *)
Definition set_files
    (from : list (string * streaming.progress_info inet_address direction))
    (to : json.json_list (hs.progress_info_mapper direction_wrapper))
    : json.json_list (hs.progress_info_mapper direction_wrapper) :=
  fold_left
    (fun to i =>
       let m := hs.mk_progress_info_mapper (fst i) (get_progress_info (snd i)) in
       json.push to m)
    from to.

(** [get_state].  The loop fills a local [si] for every session and lets
    it go out of scope at the end of the iteration; [state] is what the
    function returns. *)
Definition get_state
    (result_future :
       streaming.stream_result_future UUID inet_address direction stream_session_state)
    : hs.stream_state :=
  let state :=
    hs.mk_stream_state
      (streaming.description result_future)
      (to_sstring (streaming.plan_id result_future)) in
  fold_left
    (fun state info =>
       let si : hs.stream_info direction_wrapper state_wrapper :=
         hs.mk_stream_info
           (lexical_cast_inet_address (streaming.info_peer info))
           (streaming.info_session_index info)
           (state_of (streaming.info_state info))
           (lexical_cast_inet_address (streaming.info_connecting info))
           (set_summaries (streaming.info_receiving_summaries info) [])
           (set_summaries (streaming.info_sending_summaries info) [])
           (set_files (streaming.info_receiving_files info) [])
           (set_files (streaming.info_sending_files info) []) in
       state)
    (streaming.get_all_session_info result_future)
    state.

(** The function that [set_stream_manager] hands to [map_reduce0], run on
    the stream manager of one shard: the states of the initiated streams,
    then those of the receiving streams. *)
Definition get_current_streams_mapper
    (stream :
       streaming.stream_manager UUID inet_address direction stream_session_state)
    : list hs.stream_state :=
  let res := [] in
  let res :=
    fold_left (fun res i => res ++ [get_state (snd i)])
              (streaming.get_initiated_streams stream) res in
  let res :=
    fold_left (fun res i => res ++ [get_state (snd i)])
              (streaming.get_receiving_streams stream) res in
  res.

End StreamManager.
End api.

(** * cql3/query_options.hh *)

Section QueryOptions.

(** The consistency level, the paging state and the serialization format are
    defined in other headers and are only stored and handed back here. *)
Context {consistency_level paging_state cql_serialization_format : Type}.

(** ** The data members *)

(** [struct specific_options]: options that are likely to not be present in
    most queries.  [state] is a [shared_ptr], null when there is none. *)
Record specific_options : Type := mk_specific_options {
  page_size : Z;
  state : option paging_state;
  serial_consistency : option consistency_level;
  timestamp : Z
}.

(** [class query_options], field by field; [_batch_options] holds
    [query_options] again. *)
Inductive query_options : Type := mk_query_options {
  _consistency : consistency_level;
  _names : option (list sstring_view);
  _values : list raw_value;
  _value_views : list raw_value_view;
  _temporaries : list bytes;
  _skip_metadata : bool;
  _options : specific_options;
  _cql_serialization_format : cql_serialization_format;
  _batch_options : option (list query_options)
}.

Definition set_values (q : query_options) (vs : list raw_value) : query_options :=
  mk_query_options (_consistency q) (_names q) vs (_value_views q)
    (_temporaries q) (_skip_metadata q) (_options q)
    (_cql_serialization_format q) (_batch_options q).

Definition set_value_views (q : query_options) (vws : list raw_value_view) : query_options :=
  mk_query_options (_consistency q) (_names q) (_values q) vws
    (_temporaries q) (_skip_metadata q) (_options q)
    (_cql_serialization_format q) (_batch_options q).

Definition set_temporaries (q : query_options) (ts : list bytes) : query_options :=
  mk_query_options (_consistency q) (_names q) (_values q) (_value_views q)
    ts (_skip_metadata q) (_options q)
    (_cql_serialization_format q) (_batch_options q).

Definition set_batch_options (q : query_options) (b : option (list query_options)) : query_options :=
  mk_query_options (_consistency q) (_names q) (_values q) (_value_views q)
    (_temporaries q) (_skip_metadata q) (_options q)
    (_cql_serialization_format q) b.

(** ** The value store *)

(** What a read through view [v] finds, for a view held by instance [q]. *)
Definition view_content (q : query_options) (v : raw_value_view) : option bytes :=
  match v with
  | view_of_bytes b => Some b
  | view_of_temporary k => nth_error (_temporaries q) k
  end.

(** Modelled from the spec: [fill_value_views] is declared in the header
    and defined elsewhere.  "if values were supplied as owned buffers, a
    one-time pass builds the parallel view list by taking a reference to each
    owned buffer's storage; if values were supplied as views already, no
    materialization work occurs"; it "must be safe to invoke on an instance
    whose views are already materialized (no-op)". *)
Definition fill_value_views (q : query_options) : query_options :=
  match _value_views q with
  | [] => set_value_views q (map view_of_bytes (_values q))
  | _ :: _ => q
  end.

(** Modelled from the spec: the constructor from owned values is declared
    in the header and defined elsewhere.  It stores its arguments in the
    fields of the same names; the materialization pass "must run before
    first read", so it runs here. *)
Definition query_options_of_values (consistency : consistency_level)
    (names : option (list sstring_view)) (values : list raw_value)
    (skip_metadata : bool) (options : specific_options)
    (sf : cql_serialization_format) : query_options :=
  fill_value_views
    (mk_query_options consistency names values [] [] skip_metadata options sf None).

(** Modelled from the spec: the constructor from views is declared in the
    header and defined elsewhere.  "if values were supplied as views already
    (the common zero-copy wire path), no materialization work occurs". *)
Definition query_options_of_views (consistency : consistency_level)
    (names : option (list sstring_view)) (value_views : list raw_value_view)
    (skip_metadata : bool) (options : specific_options)
    (sf : cql_serialization_format) : query_options :=
  mk_query_options consistency names [] value_views [] skip_metadata options sf None.

(** Modelled from the spec: [get_value_at] is declared in the header and
    defined elsewhere.  It "returns a borrowed view of the value at position
    i"; "with i outside [0, count) signals an out-of-range fault", which is
    [None] here. *)
Definition get_value_at (q : query_options) (idx : nat) : option raw_value_view :=
  nth_error (_value_views q) idx.

(** Modelled from the spec: [get_values_count] is declared in the header and
    defined elsewhere; it "returns the number of bound values", which the
    unified read interface keeps in the view list. *)
Definition get_values_count (q : query_options) : nat :=
  length (_value_views q).

(** Modelled from the spec: [make_temporary] is declared in the header
    ([const], over the [mutable] member [_temporaries]) and defined
    elsewhere.  It "takes ownership of a caller-supplied buffer, stores it
    in the temporaries table, and returns a view into that stored copy".
    The instance after the call comes first, the returned view second. *)
Definition make_temporary (q : query_options) (value : raw_value)
    : query_options * raw_value_view :=
  (set_temporaries q (_temporaries q ++ [value]),
   view_of_temporary (length (_temporaries q))).

(** ** Batch derivation *)

(** The requirement on [OneMutationDataRange]: a range of [raw_value] or of
    [raw_value_view].  [construct] is the six-argument constructor that
    overload resolution selects for such a range. *)
Class OneMutationDataRange (range : Type) : Type := {
  construct :
    consistency_level -> option (list sstring_view) -> range -> bool ->
    specific_options -> cql_serialization_format -> query_options
}.

#[export] Instance raw_value_range : OneMutationDataRange (list raw_value) :=
  {| construct := query_options_of_values |}.

#[export] Instance raw_value_view_range : OneMutationDataRange (list raw_value_view) :=
  {| construct := query_options_of_views |}.

(** [query_options(query_options&&) = default]: every member of the new
    object is move-constructed from the same member of [o]. *)
Definition query_options_move (o : query_options) : query_options := o.

(** The batch constructor
    [query_options(query_options&& o, std::vector<OneMutationDataRange> values_ranges)]:
    delegate to the move constructor, build one [query_options] per range
    into [tmp] with an empty [names] argument, then assign [tmp] to
    [_batch_options]. *)
Definition query_options_batch {range : Type} `{OneMutationDataRange range}
    (o : query_options) (values_ranges : list range) : query_options :=
  let this := query_options_move o in
  let tmp :=
    map (fun values_range =>
           construct (_consistency this) None values_range
                     (_skip_metadata this) (_options this)
                     (_cql_serialization_format this))
        values_ranges in
  set_batch_options this (Some tmp).

(** [make_batch_options]: the batch [query_options] factory. *)
Definition make_batch_options {range : Type} `{OneMutationDataRange range}
    (o : query_options) (values_ranges : list range) : query_options :=
  query_options_batch o values_ranges.

(** ** The parameter binder *)

(** The two faults [prepare] reports to its caller. *)
Inductive binding_fault : Type :=
| cardinality_fault
| name_resolution_fault.

(** Position of the first entry of [names] equal to [n]. *)
Fixpoint index_of (n : sstring_view) (names : list sstring_view) : option nat :=
  match names with
  | [] => None
  | m :: rest =>
      if String.eqb m n then Some 0
      else match index_of n rest with
           | Some j => Some (S j)
           | None => None
           end
  end.

(** Every supplied name is the name of some specification. *)
Definition all_matched (names : list sstring_view)
    (specs : list column_specification) : bool :=
  forallb (fun n => existsb (fun spec => String.eqb (name spec) n) specs) names.

(** No name is supplied twice. *)
Fixpoint all_distinct (names : list sstring_view) : bool :=
  match names with
  | [] => true
  | n :: rest => negb (existsb (String.eqb n) rest) && all_distinct rest
  end.

(** The sequence [xs], labelled position by position by [names], put in the
    order of [specs]: one pass over the specifications, each taking the
    entry its name labels.  A specification whose name labels nothing takes
    nothing. *)
Definition bind_by_name {A : Type} (names : list sstring_view)
    (specs : list column_specification) (xs : list A) : list A :=
  flat_map
    (fun spec =>
       match index_of (name spec) names with
       | Some j =>
           match nth_error xs j with
           | Some x => [x]
           | None => []
           end
       | None => []
       end)
    specs.

(** Modelled from the spec: [prepare] is declared in the header and defined
    elsewhere.  "if names is present, reorders values (and the view list,
    consistently) so that position i after reordering corresponds to
    column_specs[i]"; "unmatched or duplicate names signal a binding fault";
    "If names is absent, values are assumed already in positional order
    matching column_specs; a count mismatch between values and column_specs
    signals a cardinality fault"; "no partial binding occurs".  The result is
    the fault, if any, and the instance after the call.  That [prepare] runs
    at most once per instance is the caller's obligation. *)
Definition prepare (specs : list column_specification) (q : query_options)
    : option binding_fault * query_options :=
  match _names q with
  | None =>
      if Nat.eqb (get_values_count q) (length specs)
      then (None, q)
      else (Some cardinality_fault, q)
  | Some names =>
      if all_matched names specs && all_distinct names
      then (None,
            set_value_views
              (set_values q (bind_by_name names specs (_values q)))
              (bind_by_name names specs (_value_views q)))
      else (Some name_resolution_fault, q)
  end.

(** ** Per-statement options *)

(** Modelled from the spec: [for_statement] is declared in the header and
    defined elsewhere.  On a batch base "for_statement(i) returns
    batch_members[i]"; "on a non-batch instance (no batch_members) returns
    the instance itself".  [None] when the batch has no member [i]. *)
Definition for_statement (q : query_options) (i : nat) : option query_options :=
  match _batch_options q with
  | None => Some q
  | Some members => nth_error members i
  end.

(** ** The life of an instance *)

(** The calls that can change an instance between its construction and its
    destruction; the remaining member functions only read. *)
Inductive operation : Type :=
| call_prepare (specs : list column_specification)
| call_fill_value_views
| call_make_temporary (value : raw_value).

Definition step (q : query_options) (op : operation) : query_options :=
  match op with
  | call_prepare specs => snd (prepare specs q)
  | call_fill_value_views => fill_value_views q
  | call_make_temporary value => fst (make_temporary q value)
  end.

Definition run (q : query_options) (ops : list operation) : query_options :=
  fold_left step ops q.

(** ** Vocabulary of the properties *)

(** What a member built from an owned range [R], respectively from a range
    of views [R], shows of the base [o] and of [R]. *)
Definition member_of_values (o : query_options) (R : list raw_value)
    (m : query_options) : Prop :=
  _consistency m = _consistency o /\
  _options m = _options o /\
  _cql_serialization_format m = _cql_serialization_format o /\
  _skip_metadata m = _skip_metadata o /\
  _values m = R /\
  get_values_count m = length R /\
  map (view_content m) (_value_views m) = map Some R.

Definition member_of_views (o : query_options) (R : list raw_value_view)
    (m : query_options) : Prop :=
  _consistency m = _consistency o /\
  _options m = _options o /\
  _cql_serialization_format m = _cql_serialization_format o /\
  _skip_metadata m = _skip_metadata o /\
  _value_views m = R /\
  get_values_count m = length R.

(** A name that [names] holds more than once. *)
Definition supplied_twice (names : list sstring_view) (n : sstring_view) : Prop :=
  1 < count_occ string_dec names n.

(** A name of [names] that no specification of [specs] has. *)
Definition unmatched (specs : list column_specification) (n : sstring_view) : Prop :=
  ~ In n (map name specs).

(** * Properties *)

(** ** Batch derivation *)

Lemma query_options_of_values_views :
  forall c names values k s f,
    _value_views (query_options_of_values c names values k s f)
    = map view_of_bytes values.
Proof. reflexivity. Qed.

Lemma view_content_of_bytes :
  forall (q : query_options) (values : list raw_value),
    map (view_content q) (map view_of_bytes values) = map Some values.
Proof.
  intros q values. rewrite map_map. reflexivity.
Qed.

Lemma batch_members_eq :
  forall {range : Type} `{OneMutationDataRange range}
         (o : query_options) (values_ranges : list range),
    _batch_options (make_batch_options o values_ranges)
    = Some (map (fun r => construct (_consistency o) None r (_skip_metadata o)
                                    (_options o) (_cql_serialization_format o))
                values_ranges).
Proof. reflexivity. Qed.

(** C1: batch derivation from a base with consistency C, specific options
    S, serialization format F and skip_metadata K, over ranges R1..Rn, yields
    exactly n members, and member i has consistency C, specific options S,
    format F, skip_metadata K and values equal to Ri.  This holds for ranges
    of owned values and for ranges of views. *)
Theorem batch_members_share_base_and_carry_ranges :
  forall o : query_options,
    (forall ranges : list (list raw_value),
        exists members,
          _batch_options (make_batch_options o ranges) = Some members /\
          length members = length ranges /\
          Forall2 (member_of_values o) ranges members) /\
    (forall ranges : list (list raw_value_view),
        exists members,
          _batch_options (make_batch_options o ranges) = Some members /\
          length members = length ranges /\
          Forall2 (member_of_views o) ranges members).
Proof.
  intro o. split; intro ranges;
    rewrite batch_members_eq; eexists; (split; [reflexivity|]);
    (split; [apply length_map|]).
  - induction ranges as [|R ranges IH]; simpl; constructor; auto.
    unfold member_of_values, get_values_count. simpl.
    repeat split; auto.
    + apply length_map.
    + rewrite map_map. reflexivity.
  - induction ranges as [|R ranges IH]; simpl; constructor; auto.
    unfold member_of_views, get_values_count. simpl.
    repeat split; auto.
Qed.

(** C2: batch derivation leaves the base's own values as they were before
    the derivation, and the view list and every other member with them;
    only [_batch_options] is set. *)
Theorem batch_derivation_keeps_base_values :
  forall {range : Type} `{OneMutationDataRange range}
         (o : query_options) (ranges : list range),
    let b := make_batch_options o ranges in
    _values b = _values o /\
    _value_views b = _value_views o /\
    _temporaries b = _temporaries o /\
    _names b = _names o /\
    _batch_options b <> None /\
    set_batch_options b (_batch_options o) = o.
Proof.
  intros range H o ranges b. subst b.
  repeat split; try reflexivity.
  - rewrite batch_members_eq. discriminate.
  - destruct o; reflexivity.
Qed.

(** C3, as amended: batch derivation from n ranges leaves [_batch_options]
    present with exactly n members; the members are non-empty exactly when
    the ranges are, so zero ranges give a present, empty sequence. *)
Theorem batch_members_present_one_per_range :
  forall {range : Type} `{OneMutationDataRange range}
         (o : query_options) (ranges : list range),
    exists members,
      _batch_options (make_batch_options o ranges) = Some members /\
      length members = length ranges /\
      (members <> [] <-> ranges <> []).
Proof.
  intros range H o ranges. rewrite batch_members_eq.
  eexists; split; [reflexivity|]. split.
  - apply length_map.
  - destruct ranges; simpl; split; intro Hne; try congruence; discriminate.
Qed.

(** C10: every member produced by batch derivation has no names, whether
    or not the base has any; so [prepare] on a member never takes the
    by-name path: it reports no name-resolution fault and reorders nothing. *)
Theorem batch_members_have_no_names :
  forall o : query_options,
    (forall ranges : list (list raw_value),
        exists members,
          _batch_options (make_batch_options o ranges) = Some members /\
          Forall (fun m => _names m = None /\
                           forall specs,
                             fst (prepare specs m) <> Some name_resolution_fault /\
                             snd (prepare specs m) = m) members) /\
    (forall ranges : list (list raw_value_view),
        exists members,
          _batch_options (make_batch_options o ranges) = Some members /\
          Forall (fun m => _names m = None /\
                           forall specs,
                             fst (prepare specs m) <> Some name_resolution_fault /\
                             snd (prepare specs m) = m) members).
Proof.
  intro o. split; intro ranges;
    rewrite batch_members_eq; eexists; (split; [reflexivity|]);
    apply Forall_forall; intros m Hin;
    apply in_map_iff in Hin; destruct Hin as [R [<- _]];
    (split; [reflexivity|]); intro specs; unfold prepare; simpl;
    match goal with |- context [if ?c then _ else _] => destruct c end;
    simpl; split; (discriminate || reflexivity).
Qed.

(** ** The parameter binder *)

Lemma index_of_sound :
  forall n names j, index_of n names = Some j -> nth_error names j = Some n.
Proof.
  intros n names. induction names as [|m rest IH]; simpl; intros j Hj.
  - discriminate.
  - destruct (String.eqb_spec m n) as [->|Hne].
    + injection Hj as <-. reflexivity.
    + destruct (index_of n rest) as [j'|]; [|discriminate].
      injection Hj as <-. simpl. apply IH. reflexivity.
Qed.


Lemma all_matched_spec :
  forall names specs,
    all_matched names specs = true <->
    (forall n, In n names -> In n (map name specs)).
Proof.
  intros names specs. unfold all_matched. rewrite forallb_forall.
  split; intros Hall n Hin.
  - apply Hall in Hin. apply existsb_exists in Hin.
    destruct Hin as [spec [Hspec Heq]]. apply String.eqb_eq in Heq. subst n.
    apply in_map. exact Hspec.
  - apply existsb_exists. apply Hall in Hin. apply in_map_iff in Hin.
    destruct Hin as [spec [Heq Hspec]]. exists spec. split; [exact Hspec|].
    apply String.eqb_eq. exact Heq.
Qed.

Lemma existsb_eqb_In :
  forall n names, existsb (String.eqb n) names = true <-> In n names.
Proof.
  intros n names. rewrite existsb_exists. split.
  - intros [m [Hin Heq]]. apply String.eqb_eq in Heq. subst m. exact Hin.
  - intro Hin. exists n. split; [exact Hin | apply String.eqb_refl].
Qed.

Lemma all_distinct_spec :
  forall names, all_distinct names = true <-> NoDup names.
Proof.
  induction names as [|n rest IH]; simpl.
  - split; [constructor | reflexivity].
  - rewrite andb_true_iff, negb_true_iff, IH. split.
    + intros [Hnot Hnd]. constructor; [|exact Hnd].
      intro Hin. apply existsb_eqb_In in Hin. congruence.
    + intro Hnd. inversion Hnd as [|n' rest' Hnotin Hnd']; subst.
      split; [|exact Hnd'].
      destruct (existsb (String.eqb n) rest) eqn:E; [|reflexivity].
      apply existsb_eqb_In in E. contradiction.
Qed.

Lemma not_all_matched :
  forall names specs,
    all_matched names specs = false <->
    exists n, In n names /\ unmatched specs n.
Proof.
  intros names specs. split.
  - unfold all_matched. induction names as [|n rest IH]; simpl; intro Hf.
    + discriminate.
    + apply andb_false_iff in Hf. destruct Hf as [Hn | Hrest].
      * exists n. split; [left; reflexivity|]. intro Hin.
        apply in_map_iff in Hin. destruct Hin as [spec [Heq Hspec]].
        assert (Ht : existsb (fun spec => String.eqb (name spec) n) specs = true).
        { apply existsb_exists. exists spec. split; [exact Hspec|].
          apply String.eqb_eq. exact Heq. }
        congruence.
      * destruct (IH Hrest) as [m [Hin Hun]]. exists m. split; [right|]; assumption.
  - intros [n [Hin Hun]].
    destruct (all_matched names specs) eqn:E; [|reflexivity].
    exfalso. apply Hun. exact (proj1 (all_matched_spec names specs) E n Hin).
Qed.

Lemma not_all_distinct :
  forall names,
    all_distinct names = false <->
    exists n, In n names /\ supplied_twice names n.
Proof.
  intro names. split.
  - intro Hf.
    assert (Hnd : ~ NoDup names).
    { intro Hnd. apply all_distinct_spec in Hnd. congruence. }
    rewrite (NoDup_count_occ string_dec) in Hnd.
    clear Hf. unfold supplied_twice.
    assert (Hex : exists n, In n names /\ 1 < count_occ string_dec names n).
    { assert (Hdec : forall l : list sstring_view,
                 (forall x, In x l -> count_occ string_dec names x <= 1) \/
                 (exists n, In n l /\ 1 < count_occ string_dec names n)).
      { induction l as [|x l IHl].
        - left. intros x [].
        - destruct IHl as [Hall | [n [Hin Hn]]].
          + destruct (le_lt_dec (count_occ string_dec names x) 1) as [Hle | Hlt].
            * left. intros y [<- | Hy]; auto.
            * right. exists x. split; [left; reflexivity | exact Hlt].
          + right. exists n. split; [right; exact Hin | exact Hn]. }
      destruct (Hdec names) as [Hall | Hex]; [|exact Hex].
      exfalso. apply Hnd. intro x.
      destruct (in_dec string_dec x names) as [Hin | Hnin].
      - apply Hall. exact Hin.
      - apply (count_occ_not_In string_dec) in Hnin. lia. }
    exact Hex.
  - intros [n [_ Htwice]]. unfold supplied_twice in Htwice.
    destruct (all_distinct names) eqn:E; [|reflexivity].
    apply all_distinct_spec in E.
    rewrite (NoDup_count_occ string_dec) in E. specialize (E n). lia.
Qed.






(** C5: [prepare] signals a name-resolution fault exactly when names are
    present and some name is matched by no specification or is supplied
    twice; it signals a cardinality fault exactly when names are absent and
    the value count differs from the specification count; and whenever it
    signals a fault the instance, its values included, is as before. *)
Theorem prepare_faults_exactly_and_binds_all_or_nothing :
  forall (specs : list column_specification) (q : query_options),
    (fst (prepare specs q) = Some name_resolution_fault <->
     exists names,
       _names q = Some names /\
       exists n, In n names /\ (unmatched specs n \/ supplied_twice names n)) /\
    (fst (prepare specs q) = Some cardinality_fault <->
     _names q = None /\ get_values_count q <> length specs) /\
    (fst (prepare specs q) <> None ->
     snd (prepare specs q) = q /\
     _values (snd (prepare specs q)) = _values q /\
     _value_views (snd (prepare specs q)) = _value_views q).
Proof.
  intros specs q. unfold prepare.
  destruct (_names q) as [names|] eqn:Hnames.
  - destruct (all_matched names specs) eqn:Hm; simpl.
    + destruct (all_distinct names) eqn:Hd; simpl.
      * repeat split; try discriminate; try congruence.
        intros [names' [Heq [n [Hin [Hun | Htw]]]]]; injection Heq as <-.
        -- assert (Hf : all_matched names specs = false)
             by (apply not_all_matched; exists n; split; assumption).
           congruence.
        -- assert (Hf : all_distinct names = false)
             by (apply not_all_distinct; exists n; split; assumption).
           congruence.
        -- intros [Hnone _]. discriminate.
      * repeat split; try discriminate.
        -- intros _. exists names. split; [reflexivity|].
           apply not_all_distinct in Hd. destruct Hd as [n [Hin Htw]].
           exists n. split; [exact Hin | right; exact Htw].
        -- intros [Hnone _]. discriminate.
    + repeat split; try discriminate.
      * intros _. exists names. split; [reflexivity|].
        apply not_all_matched in Hm. destruct Hm as [n [Hin Hun]].
        exists n. split; [exact Hin | left; exact Hun].
      * intros [Hnone _]. discriminate.
  - destruct (Nat.eqb_spec (get_values_count q) (length specs)) as [Heq | Hne]; simpl.
    + repeat split; try discriminate; try congruence.
      * intros [names [Habs _]]. discriminate.
      * intros [_ Hne]. contradiction.
    + repeat split; try discriminate; try congruence.
      intros [names [Habs _]]. discriminate.
Qed.

(** ** The value store *)

Lemma fill_value_views_twice :
  forall q : query_options,
    fill_value_views (fill_value_views q) = fill_value_views q.
Proof.
  intros [c names values views temps k s f batch].
  unfold fill_value_views. simpl.
  destruct views as [|v views]; simpl; [|reflexivity].
  destruct values as [|b values]; reflexivity.
Qed.

(** C6: the materialization pass is idempotent, on every instance; on an
    instance constructed from owned buffers V a further pass changes
    nothing, the instance holds exactly V, and [get_value_at i] reads, for
    every i below the count, the bytes of V[i] (and faults for the others). *)
Theorem fill_value_views_idempotent_and_faithful :
  (forall q : query_options,
      fill_value_views (fill_value_views q) = fill_value_views q) /\
  (forall c names (V : list raw_value) k s f,
      let q := query_options_of_values c names V k s f in
      fill_value_views q = q /\
      _values q = V /\
      get_values_count q = length V /\
      forall i,
        match get_value_at q i with
        | Some v => view_content q v
        | None => None
        end = nth_error V i).
Proof.
  split; [exact fill_value_views_twice|].
  intros c names V k s f q. subst q.
  split; [apply fill_value_views_twice|].
  split; [reflexivity|].
  unfold get_values_count, get_value_at.
  rewrite query_options_of_values_views.
  split; [apply length_map|].
  intro i. rewrite nth_error_map.
  generalize (query_options_of_values c names V k s f).
  intro q. exact (match nth_error V i as r
                        return match option_map view_of_bytes r with
                               | Some v => view_content q v
                               | None => None
                               end = r
                  with
                  | Some _ => eq_refl
                  | None => eq_refl
                  end).
Qed.

Lemma step_temporaries :
  forall (q : query_options) (op : operation),
    exists added, _temporaries (step q op) = _temporaries q ++ added.
Proof.
  intros q [specs| |value]; simpl.
  - exists []. rewrite app_nil_r. unfold prepare.
    destruct (_names q) as [names|].
    + destruct (all_matched names specs && all_distinct names); reflexivity.
    + destruct (Nat.eqb (get_values_count q) (length specs)); reflexivity.
  - exists []. rewrite app_nil_r. unfold fill_value_views.
    destruct (_value_views q); reflexivity.
  - exists [value]. reflexivity.
Qed.

(** The temporaries table only ever grows at its end. *)
Lemma run_temporaries :
  forall (ops : list operation) (q : query_options),
    exists added, _temporaries (run q ops) = _temporaries q ++ added.
Proof.
  unfold run. induction ops as [|op ops IH]; intro q; simpl.
  - exists []. symmetry. apply app_nil_r.
  - destruct (IH (step q op)) as [added2 H2].
    destruct (step_temporaries q op) as [added1 H1].
    exists (added1 ++ added2). rewrite H2, H1. symmetry. apply app_assoc.
Qed.

(** C7: [make_temporary b] appends b to the temporaries table and returns
    a view that reads b; the view still reads b after any further calls on
    the instance, in particular after any number of further
    [make_temporary]. *)
Theorem make_temporary_view_stays_valid :
  forall (q : query_options) (b : raw_value),
    let q1 := fst (make_temporary q b) in
    let v := snd (make_temporary q b) in
    _temporaries q1 = _temporaries q ++ [b] /\
    view_content q1 v = Some b /\
    (forall ops : list operation, view_content (run q1 ops) v = Some b) /\
    (forall more : list raw_value,
        view_content (run q1 (map call_make_temporary more)) v = Some b).
Proof.
  intros q b q1 v.
  assert (Hq1 : _temporaries q1 = _temporaries q ++ [b]) by reflexivity.
  assert (Hrun : forall ops, view_content (run q1 ops) v = Some b).
  { intro ops. destruct (run_temporaries ops q1) as [added Hadd].
    subst v. simpl. rewrite Hadd, Hq1, <- app_assoc.
    rewrite nth_error_app2 by lia. rewrite Nat.sub_diag. reflexivity. }
  split; [exact Hq1|]. split; [exact (Hrun [])|].
  split; [exact Hrun|]. intro more. apply Hrun.
Qed.

(** ** Per-statement options *)

(** C8: on an instance without batch members, [for_statement i] returns the
    instance itself, for every i. *)
Theorem for_statement_of_plain_instance :
  forall (q : query_options) (i : nat),
    _batch_options q = None -> for_statement q i = Some q.
Proof.
  intros q i Hplain. unfold for_statement. rewrite Hplain. reflexivity.
Qed.

(** ** Batch derivation, further *)

(** X1: deriving a batch from an instance that already is a batch base replaces
    the earlier members: the result is the batch derived from the original
    base over the new ranges alone. *)
Theorem batch_derivation_replaces_earlier_members :
  forall {range1 range2 : Type}
         `{OneMutationDataRange range1} `{OneMutationDataRange range2}
         (o : query_options) (earlier : list range1) (ranges : list range2),
    make_batch_options (make_batch_options o earlier) ranges
    = make_batch_options o ranges.
Proof.
  intros range1 range2 H1 H2 o earlier ranges.
  destruct o; reflexivity.
Qed.

(** X2: the members take nothing from the base but its consistency, its
    skip_metadata flag, its specific options and its serialization format:
    two bases that agree on these four yield the same members over the same
    ranges, whatever names, values, views, temporaries and members they
    hold. *)
Theorem batch_members_depend_on_shared_members_only :
  forall {range : Type} `{OneMutationDataRange range}
         (o o' : query_options) (ranges : list range),
    _consistency o = _consistency o' ->
    _skip_metadata o = _skip_metadata o' ->
    _options o = _options o' ->
    _cql_serialization_format o = _cql_serialization_format o' ->
    _batch_options (make_batch_options o ranges)
    = _batch_options (make_batch_options o' ranges).
Proof.
  intros range H o o' ranges Hc Hk Hs Hf.
  rewrite !batch_members_eq, Hc, Hk, Hs, Hf. reflexivity.
Qed.

End QueryOptions.

(** * The properties at concrete instances *)



Lemma for_statement_of_plain_instance_witness :
  _batch_options (@query_options_of_views nat unit nat 1 None
                    [view_of_bytes [x01]] false
                    (mk_specific_options (-1)%Z None None 0%Z) 4)
  = None /\
  for_statement (@query_options_of_views nat unit nat 1 None
                   [view_of_bytes [x01]] false
                   (mk_specific_options (-1)%Z None None 0%Z) 4) 7
  = Some (@query_options_of_views nat unit nat 1 None
            [view_of_bytes [x01]] false
            (mk_specific_options (-1)%Z None None 0%Z) 4).
Proof.
  split; [reflexivity|].
  apply for_statement_of_plain_instance. reflexivity.
Defined.

(** Batch derivation from no ranges at all: the members are present and
    empty. *)
Lemma batch_of_no_ranges_has_present_empty_members :
  ~ (forall members,
        _batch_options
          (make_batch_options
             (@query_options_of_views nat unit nat 1 None
                [view_of_bytes [x01]] false
                (mk_specific_options (-1)%Z None None 0%Z) 4)
             (@nil (list raw_value_view)))
        = Some members ->
        members <> []).
Proof.
  intro Hnonempty. apply (Hnonempty [] eq_refl). reflexivity.
Qed.

Lemma batch_members_depend_on_shared_members_only_witness :
  _consistency (@query_options_of_values nat unit nat 1 (Some ["a"%string])
                  [[x01]] true (mk_specific_options 100%Z None None 0%Z) 4)
  = _consistency (@query_options_of_views nat unit nat 1 None [] true
                    (mk_specific_options 100%Z None None 0%Z) 4) /\
  _batch_options
    (make_batch_options
       (@query_options_of_values nat unit nat 1 (Some ["a"%string])
          [[x01]] true (mk_specific_options 100%Z None None 0%Z) 4)
       [[[x02]]; [[x03]; [x04]]])
  = _batch_options
      (make_batch_options
         (@query_options_of_views nat unit nat 1 None [] true
            (mk_specific_options 100%Z None None 0%Z) 4)
         [[[x02]]; [[x03]; [x04]]]).
Proof.
  split; [reflexivity|].
  apply batch_members_depend_on_shared_members_only; reflexivity.
Defined.

(** * Properties of api/stream_manager.cc *)

Section StreamManagerProperties.
Context {UUID inet_address direction stream_session_state : Type}.
Context {direction_wrapper state_wrapper : Type}.
Variable lexical_cast_UUID : UUID -> string.
Variable lexical_cast_inet_address : inet_address -> string.
Variable to_sstring : UUID -> string.
Variable direction_of : direction -> direction_wrapper.
Variable state_of : stream_session_state -> state_wrapper.

Local Abbreviation set_summaries := (api.set_summaries lexical_cast_UUID).
Local Abbreviation get_progress_info :=
  (api.get_progress_info lexical_cast_inet_address direction_of).
Local Abbreviation set_files :=
  (api.set_files lexical_cast_inet_address direction_of).
Local Abbreviation get_state :=
  (api.get_state (state_wrapper := state_wrapper) lexical_cast_UUID
     lexical_cast_inet_address to_sstring direction_of state_of).
Local Abbreviation get_current_streams_mapper :=
  (api.get_current_streams_mapper (state_wrapper := state_wrapper)
     lexical_cast_UUID lexical_cast_inet_address to_sstring direction_of state_of).

(** A loop that pushes one converted element per element of its input. *)
Lemma fold_left_push :
  forall {A B : Type} (f : A -> B) (from : list A) (to : json.json_list B),
    fold_left (fun to x => json.push to (f x)) from to = to ++ map f from.
Proof.
  intros A B f from. induction from as [|x from IH]; intro to; simpl.
  - symmetry. apply app_nil_r.
  - rewrite IH. unfold json.push. rewrite <- app_assoc. reflexivity.
Qed.

Lemma Forall2_map_image :
  forall {A B : Type} (f : A -> B) (R : A -> B -> Prop) (l : list A),
    (forall x, R x (f x)) -> Forall2 R l (map f l).
Proof.
  intros A B f R l HR. induction l; simpl; constructor; auto.
Qed.

(** X3: [set_summaries] keeps what [to] held, in place, and appends one summary
    per element of [from], in the order of [from]: the table id as text,
    the file count and the total size as they are.  With nothing in [from],
    [to] is returned as it is. *)
Theorem set_summaries_appends_one_per_summary :
  forall (from : list (streaming.stream_summary UUID))
         (to : json.json_list hs.stream_summary),
    exists pushed,
      set_summaries from to = to ++ pushed /\
      length (set_summaries from to) = length to + length from /\
      Forall2
        (fun sum res =>
           hs.cf_id res = lexical_cast_UUID (streaming.cf_id sum) /\
           hs.files res = streaming.files sum /\
           hs.total_size res = streaming.total_size sum)
        from pushed.
Proof.
  intros from to. unfold api.set_summaries.
  rewrite (fold_left_push
             (fun sum => hs.mk_stream_summary
                           (lexical_cast_UUID (streaming.cf_id sum))
                           (streaming.files sum) (streaming.total_size sum))).
  eexists. split; [reflexivity|]. split.
  - rewrite length_app, length_map. reflexivity.
  - apply Forall2_map_image. intro sum. repeat split.
Qed.

(** X4: [set_files] keeps what [to] held and appends one entry per entry of the
    map, in the order of the map: the keys are the keys of the map, and each
    value carries the byte counts, the file name and the session index of
    the progress it comes from, with the peer as text. *)
Theorem set_files_appends_one_per_entry :
  forall (from : list (string * streaming.progress_info inet_address direction))
         (to : json.json_list (hs.progress_info_mapper direction_wrapper)),
    exists pushed,
      set_files from to = to ++ pushed /\
      map hs.key pushed = map fst from /\
      Forall2
        (fun i m =>
           hs.key m = fst i /\
           hs.value m = get_progress_info (snd i) /\
           hs.current_bytes (hs.value m) = streaming.current_bytes (snd i) /\
           hs.total_bytes (hs.value m) = streaming.total_bytes (snd i) /\
           hs.file_name (hs.value m) = streaming.file_name (snd i) /\
           hs.session_index (hs.value m) = streaming.session_index (snd i) /\
           hs.peer (hs.value m) = lexical_cast_inet_address (streaming.peer (snd i)) /\
           hs.direction (hs.value m) = direction_of (streaming.dir (snd i)))
        from pushed.
Proof.
  intros from to. unfold api.set_files.
  rewrite (fold_left_push
             (fun i => hs.mk_progress_info_mapper
                         (fst i) (get_progress_info (snd i)))).
  eexists. split; [reflexivity|]. split.
  - rewrite map_map. reflexivity.
  - apply Forall2_map_image. intro i. repeat split.
Qed.

(** X5: looking a file name up in the list that [set_files] builds from a map
    finds the converted progress of the entry that the same lookup finds in
    the map, and finds nothing when the map has no such entry. *)
Theorem set_files_lookup :
  forall (from : list (string * streaming.progress_info inet_address direction))
         (file : string),
    option_map hs.value
      (find (fun m => String.eqb (hs.key m) file) (set_files from []))
    = option_map (fun i => get_progress_info (snd i))
        (find (fun i => String.eqb (fst i) file) from).
Proof.
  intros from file. unfold api.set_files.
  rewrite (fold_left_push
             (fun i => hs.mk_progress_info_mapper
                         (fst i) (get_progress_info (snd i)))).
  simpl. induction from as [|i from IH]; simpl; [reflexivity|].
  destruct (String.eqb (fst i) file); [reflexivity | exact IH].
Qed.

Lemma fold_left_keep :
  forall {A B : Type} (l : list B) (a : A),
    fold_left (fun a _ => a) l a = a.
Proof.
  intros A B l a. induction l as [|x l IH]; simpl; [reflexivity | exact IH].
Qed.

(** The loop of [get_state] hands [state] on as it received it. *)
Lemma get_state_eq :
  forall (result_future :
            streaming.stream_result_future UUID inet_address direction
              stream_session_state),
    get_state result_future
    = hs.mk_stream_state (streaming.description result_future)
        (to_sstring (streaming.plan_id result_future)).
Proof.
  intro result_future. unfold api.get_state.
  apply (fold_left_keep (A := hs.stream_state)).
Qed.

(** X6: [get_state] returns the description of the result future and its plan
    id as text, and nothing else: the sessions of the future leave no trace
    in the result, so two futures that differ in their sessions only give
    the same state. *)
Theorem get_state_reports_description_and_plan_id_only :
  forall (plan : UUID) (description : string)
         (sessions sessions' :
            list (streaming.session_info UUID inet_address direction
                    stream_session_state)),
    get_state (streaming.mk_stream_result_future plan description sessions)
    = hs.mk_stream_state description (to_sstring plan) /\
    get_state (streaming.mk_stream_result_future plan description sessions)
    = get_state (streaming.mk_stream_result_future plan description sessions').
Proof.
  intros plan description sessions sessions'.
  rewrite !get_state_eq. simpl. split; reflexivity.
Qed.

(** X7: on one shard the mapper of [get_current_streams] returns one state per
    stream, those of the initiated streams first and those of the receiving
    streams after them, each in the order of its map and each with the
    description and the plan id of its stream. *)
Theorem get_current_streams_mapper_lists_initiated_then_receiving :
  forall (stream :
            streaming.stream_manager UUID inet_address direction
              stream_session_state),
    length (get_current_streams_mapper stream)
    = length (streaming.get_initiated_streams stream)
      + length (streaming.get_receiving_streams stream) /\
    Forall2
      (fun i state =>
         hs.description state = streaming.description (snd i) /\
         hs.plan_id state = to_sstring (streaming.plan_id (snd i)))
      (streaming.get_initiated_streams stream
       ++ streaming.get_receiving_streams stream)
      (get_current_streams_mapper stream).
Proof.
  intro stream. unfold api.get_current_streams_mapper.
  assert (Hloop : forall (l : list (UUID * streaming.stream_result_future UUID
                                              inet_address direction
                                              stream_session_state))
                          (res : list hs.stream_state),
             fold_left (fun res i => res ++ [get_state (snd i)]) l res
             = res ++ map (fun i => get_state (snd i)) l).
  { intros l res. apply (fold_left_push (fun i => get_state (snd i))). }
  rewrite !Hloop. simpl. split.
  - rewrite length_app, !length_map. reflexivity.
  - rewrite <- map_app. apply Forall2_map_image.
    intros [id result_future]. simpl.
    rewrite get_state_eq. split; reflexivity.
Qed.

End StreamManagerProperties.
